(** * movies-buddy: the brute-force nearest-neighbour search and its wiring

    A shallow embedding of the code cells of the workshop notebooks

    - [notebooks/02-solutions-vector_database.ipynb]: [k_closest_vectors]
      (cell 13) and the Qdrant cells 35, 39, 41, 43 and 44;
    - [notebooks/03-rag_from_scratch.ipynb]: the exercise functions
      [get_records], [format_records_into_context] and [ask].

    Conventions of the model.

    - A NumPy [float64] element is idealised as a real number of [R]:
      rounding, overflow and NaN are outside the model.
    - A two-dimensional array is its number of columns together with the
      list of its rows; a one-dimensional array is a list.
    - A raised Python exception is the [Raise] branch of [result].
    - [np.argsort] belongs to NumPy, and its default sort makes no promise
      about ties: it is a parameter of the development, constrained only by
      its documented contract (a permutation of the indices that orders the
      values).  [argsort_stable] is one function meeting that contract. *)

From Stdlib Require Import Ascii String.
From Stdlib Require Import Reals Lra Lia ZArith Arith Bool List.
From Stdlib Require Import Permutation Sorted.
Import ListNotations.

(** ** Exceptions and the error monad *)

Inductive exn : Type :=
| ValueError_broadcast (rows cols len : nat)
    (* operands could not be broadcast together with shapes (rows,cols) (len,) *)
| IndexError (index bound : nat)
    (* index is out of bounds for axis 0 *)
| TypeError
    (* an operation received an object of the wrong kind *)
| CollectionNotFound (name : string)
    (* the vector database holds no collection of that name *)
| WrongVectorSize (expected got : nat).
    (* a vector whose length is not the collection's vector size *)

Inductive result (A : Type) : Type :=
| Ok (a : A)
| Raise (e : exn).

Arguments Ok {A} a.
Arguments Raise {A} e.

Definition rbind {A B : Type} (c : result A) (f : A -> result B) : result B :=
  match c with
  | Ok a => f a
  | Raise e => Raise e
  end.

Declare Scope result_scope.
Delimit Scope result_scope with result.
Notation "x <- c ;; k" := (rbind c (fun x => k))
  (at level 61, c at next level, right associativity) : result_scope.

(** ** NumPy arrays and the operations the notebook applies to them *)

Module NumPy.

(** A 2-D [float64] array of shape [(length rows, ncols)]. *)
Record ndarray2 : Type := Matrix { ncols : nat; rows : list (list R) }.

Definition nrows (a : ndarray2) : nat := length (rows a).

(** Every row has the length the shape announces. *)
Definition well_shaped (a : ndarray2) : Prop :=
  Forall (fun r => length r = ncols a) (rows a).

Definition row (a : ndarray2) (i : nat) : list R := nth i (rows a) [].

(** [a - b] for [a] of shape [(n, d)] and [b] of shape [(m,)]: NumPy
    broadcasts when [d = m], when [m = 1] or when [d = 1], and raises
    [ValueError] otherwise. *)
Definition np_subtract (a : ndarray2) (b : list R) : result ndarray2 :=
  let d := ncols a in
  let m := length b in
  if Nat.eqb d m then
    Ok (Matrix d (map (fun r => map (fun p => fst p - snd p)%R (combine r b)) (rows a)))
  else if Nat.eqb m 1 then
    Ok (Matrix d (map (fun r => map (fun x => x - hd 0 b)%R r) (rows a)))
  else if Nat.eqb d 1 then
    Ok (Matrix m (map (fun r => map (fun y => hd 0 r - y)%R b) (rows a)))
  else Raise (ValueError_broadcast (nrows a) d m).

(** [a ** p], element by element. *)
Definition np_power (a : ndarray2) (p : nat) : ndarray2 :=
  Matrix (ncols a) (map (map (fun x => x ^ p)%R) (rows a)).

(** [np.sum(a, axis=1)]: one sum per row. *)
Definition np_sum_axis1 (a : ndarray2) : list R :=
  map (fun r => fold_right Rplus 0%R r) (rows a).

(** [np.sqrt], element by element. *)
Definition np_sqrt (v : list R) : list R := map sqrt v.

(** The Python slice [l[:k]]: a negative [k] counts from the end, and no
    [k] is out of range. *)
Definition slice_upto {A : Type} (l : list A) (k : Z) : list A :=
  if (k <? 0)%Z then firstn (Z.to_nat (Z.of_nat (length l) + k)) l
  else firstn (Z.to_nat k) l.

(** [a[idx]] with an integer index array: the selected rows, copied. *)
Fixpoint take_rows (rs : list (list R)) (idx : list nat) : result (list (list R)) :=
  match idx with
  | [] => Ok []
  | i :: idx' =>
      match nth_error rs i with
      | Some r =>
          match take_rows rs idx' with
          | Ok rest => Ok (r :: rest)
          | Raise e => Raise e
          end
      | None => Raise (IndexError i (length rs))
      end
  end.

Definition np_take (a : ndarray2) (idx : list nat) : result ndarray2 :=
  match take_rows (rows a) idx with
  | Ok rs => Ok (Matrix (ncols a) rs)
  | Raise e => Raise e
  end.

(** A stable argsort by straight insertion, what NumPy's introsort does on
    short arrays.  [insert_by key x l] puts [x] behind every element of [l]
    whose key is not larger. *)
Fixpoint insert_by {A : Type} (key : A -> R) (x : A) (l : list A) : list A :=
  match l with
  | [] => [x]
  | y :: l' =>
      if Rle_dec (key y) (key x) then y :: insert_by key x l'
      else x :: y :: l'
  end.

(** Insert the elements of [xs] one by one, from the first to the last. *)
Definition insert_all {A : Type} (key : A -> R) (xs acc : list A) : list A :=
  fold_left (fun best x => insert_by key x best) xs acc.

Definition argsort_stable (v : list R) : list nat :=
  insert_all (fun j => nth j v 0%R) (seq 0 (length v)) [].

End NumPy.

Import NumPy.

(** ** The nearest-neighbour search of notebook 02 *)

(** The Euclidean distance of the notebook's formula,
    [sqrt (sum_i (a_i - b_i)^2)]. *)
Definition euclidean (a b : list R) : R :=
  sqrt (fold_right Rplus 0%R (map (fun p => (fst p - snd p) ^ 2)%R (combine a b))).

Section NearestNeighbour.

(** [np.argsort] and its contract. *)
Variable np_argsort : list R -> list nat.

Definition argsort_contract : Prop :=
  forall v : list R,
    Permutation (np_argsort v) (seq 0 (length v)) /\
    Sorted Rle (map (fun i => nth i v 0%R) (np_argsort v)).

Local Open Scope result_scope.

(** The first line of the body,
    [distances = np.sqrt(np.sum((vectors - target_vec) ** 2, axis=1))]. *)
Definition distances_of (target_vec : list R) (vectors : ndarray2) : result (list R) :=
  diff <- np_subtract vectors target_vec ;;
  Ok (np_sqrt (np_sum_axis1 (np_power diff 2))).

(** [[
    def k_closest_vectors(
        target_vec: np.ndarray, vectors: np.ndarray, k: int
    ) -> np.ndarray:
        distances = np.sqrt(np.sum((vectors - target_vec) ** 2, axis=1))
        k_closest_indices = np.argsort(distances)[:k]
        closest_vectors = vectors[k_closest_indices]
        return closest_vectors
    ]] *)
Definition k_closest_vectors (target_vec : list R) (vectors : ndarray2) (k : Z)
  : result ndarray2 :=
  distances <- distances_of target_vec vectors ;;
  let k_closest_indices := slice_upto (np_argsort distances) k in
  closest_vectors <- np_take vectors k_closest_indices ;;
  Ok closest_vectors.

End NearestNeighbour.

(** The reference the specification compares with, written after its words:
    a textbook linear scan that visits the rows one by one, computes each
    row's Euclidean distance to the query, keeps the visited rows ordered by
    distance, and selects the [k] rows of smallest distance. *)
Definition linear_scan_reference (target_vec : list R) (vectors : ndarray2) (k : Z)
  : list (list R) :=
  firstn (Z.to_nat k)
         (insert_all (fun r => euclidean r target_vec) (rows vectors) []).

(** ** The same function over Python objects

    NumPy arrays are objects reached through references, and a callee could
    write into an array it was handed.  The store holds the array objects; a
    reference is a position in the store; every NumPy call of the function
    body allocates the array it returns. *)

Module Objects.

Inductive pyobj : Type :=
| Float1 (v : list R)         (* 1-D float64 array *)
| Float2 (a : ndarray2)       (* 2-D float64 array *)
| Int1 (idx : list nat).      (* 1-D array of indices *)

Definition ref : Type := nat.
Definition store : Type := list pyobj.

(** A computation reads and extends the store and may raise. *)
Definition M (A : Type) : Type := store -> result A * store.

Definition ret {A : Type} (a : A) : M A := fun s => (Ok a, s).

Definition bind {A B : Type} (c : M A) (f : A -> M B) : M B :=
  fun s =>
    match c s with
    | (Ok a, s') => f a s'
    | (Raise e, s') => (Raise e, s')
    end.

Definition lift {A : Type} (r : result A) : M A := fun s => (r, s).

Definition alloc (o : pyobj) : M ref := fun s => (Ok (length s), s ++ [o]).

Definition read (r : ref) : M pyobj :=
  fun s =>
    match nth_error s r with
    | Some o => (Ok o, s)
    | None => (Raise TypeError, s)
    end.

Definition as_float1 (o : pyobj) : result (list R) :=
  match o with Float1 v => Ok v | _ => Raise TypeError end.

Definition as_float2 (o : pyobj) : result ndarray2 :=
  match o with Float2 a => Ok a | _ => Raise TypeError end.

Definition as_int1 (o : pyobj) : result (list nat) :=
  match o with Int1 i => Ok i | _ => Raise TypeError end.

End Objects.

Import Objects.

Declare Scope obj_scope.
Delimit Scope obj_scope with obj.
Notation "x <- c ;; k" := (bind c (fun x => k))
  (at level 61, c at next level, right associativity) : obj_scope.

Section NearestNeighbourObjects.

Variable np_argsort : list R -> list nat.

Local Open Scope obj_scope.

(** [a - b] *)
Definition obj_subtract (a b : ref) : M ref :=
  oa <- read a ;; x <- lift (as_float2 oa) ;;
  ob <- read b ;; y <- lift (as_float1 ob) ;;
  z <- lift (np_subtract x y) ;;
  alloc (Float2 z).

(** [a ** p] *)
Definition obj_power (a : ref) (p : nat) : M ref :=
  oa <- read a ;; x <- lift (as_float2 oa) ;;
  alloc (Float2 (np_power x p)).

(** [np.sum(a, axis=1)] *)
Definition obj_sum_axis1 (a : ref) : M ref :=
  oa <- read a ;; x <- lift (as_float2 oa) ;;
  alloc (Float1 (np_sum_axis1 x)).

(** [np.sqrt(a)] *)
Definition obj_sqrt (a : ref) : M ref :=
  oa <- read a ;; x <- lift (as_float1 oa) ;;
  alloc (Float1 (np_sqrt x)).

(** [np.argsort(a)] *)
Definition obj_argsort (a : ref) : M ref :=
  oa <- read a ;; x <- lift (as_float1 oa) ;;
  alloc (Int1 (np_argsort x)).

(** [a[:k]]: a new array object over the elements of [a]; the function
    never writes through it, so it is modelled by its elements. *)
Definition obj_slice_upto (a : ref) (k : Z) : M ref :=
  oa <- read a ;; x <- lift (as_int1 oa) ;;
  alloc (Int1 (slice_upto x k)).

(** [a[idx]] *)
Definition obj_take (a idx : ref) : M ref :=
  oa <- read a ;; x <- lift (as_float2 oa) ;;
  oi <- read idx ;; i <- lift (as_int1 oi) ;;
  z <- lift (np_take x i) ;;
  alloc (Float2 z).

(** The body of [k_closest_vectors], one NumPy call after the other. *)
Definition k_closest_vectors_obj (target_vec vectors : ref) (k : Z) : M ref :=
  diff <- obj_subtract vectors target_vec ;;
  squares <- obj_power diff 2 ;;
  sums <- obj_sum_axis1 squares ;;
  distances <- obj_sqrt sums ;;
  order <- obj_argsort distances ;;
  k_closest_indices <- obj_slice_upto order k ;;
  closest_vectors <- obj_take vectors k_closest_indices ;;
  ret closest_vectors.

(** What a caller observes of a call: the array returned, or the
    exception. *)
Definition outcome (c : M ref) (s : store) : result pyobj :=
  match c s with
  | (Ok r, s') =>
      match nth_error s' r with
      | Some o => Ok o
      | None => Raise TypeError
      end
  | (Raise e, _) => Raise e
  end.



End NearestNeighbourObjects.

(** ** The Qdrant cells of notebook 02

    The vector database is a third-party service.  Its model follows the
    notebook's own description of it (cell 20): a collection is a named set
    of points, created with a vector size and a distance that are fixed, and
    "only vectors of the same size can be added to the same collection". *)

Module Qdrant.

Inductive Distance : Type := COSINE | EUCLID | DOT | MANHATTAN.

Record VectorParams : Type := { size : nat; distance : Distance }.

(** The payload the notebook attaches to a point: five columns of the
    movies table. *)
Record Payload : Type := {
  title : string;
  overview : string;
  release_date : string;
  runtime : string;
  genre : string
}.

(** [models.Record(id=..., vector=..., payload=...)] *)
Record Record_ : Type := { id : Z; vector : list R; payload : Payload }.

Record Collection : Type := { config : VectorParams; points : list Record_ }.

(** [QdrantClient(":memory:")]: the collections, by name. *)
Definition Client : Type := list (string * Collection).

Definition in_memory : Client := [].

Fixpoint get_collection (c : Client) (name : string) : option Collection :=
  match c with
  | [] => None
  | (n, col) :: c' => if String.eqb n name then Some col else get_collection c' name
  end.

Fixpoint delete_collection (c : Client) (name : string) : Client :=
  match c with
  | [] => []
  | (n, col) :: c' =>
      if String.eqb n name then delete_collection c' name
      else (n, col) :: delete_collection c' name
  end.

Fixpoint put_collection (c : Client) (name : string) (col : Collection) : Client :=
  match c with
  | [] => [(name, col)]
  | (n, old) :: c' =>
      if String.eqb n name then (n, col) :: c'
      else (n, old) :: put_collection c' name col
  end.

(** An operation of the client: a result and the client afterwards. *)
Definition Op (A : Type) : Type := Client -> result A * Client.

(** [recreate_collection]: drop the collection if it exists, then create
    it empty with the given configuration. *)
Definition recreate_collection (collection_name : string) (vectors_config : VectorParams)
  : Op unit :=
  fun c =>
    (Ok tt, (collection_name, {| config := vectors_config; points := [] |})
              :: delete_collection c collection_name).

(** A point fits a collection when its vector has the collection's size. *)
Definition fits (sz : nat) (p : Record_) : Prop := length (vector p) = sz.

(** A point replaces the stored point of the same id, if any. *)
Fixpoint upsert (p : Record_) (stored : list Record_) : list Record_ :=
  match stored with
  | [] => [p]
  | q :: stored' =>
      if Z.eqb (id q) (id p) then p :: stored' else q :: upsert p stored'
  end.

(** Points go in one after the other; a vector of another size is refused,
    and what was stored before it stays stored. *)
Fixpoint upload_into (sz : nat) (pts stored : list Record_)
  : result unit * list Record_ :=
  match pts with
  | [] => (Ok tt, stored)
  | p :: pts' =>
      if Nat.eqb (length (vector p)) sz then upload_into sz pts' (upsert p stored)
      else (Raise (WrongVectorSize sz (length (vector p))), stored)
  end.

Definition upload_points (collection_name : string) (pts : list Record_) : Op unit :=
  fun c =>
    match get_collection c collection_name with
    | None => (Raise (CollectionNotFound collection_name), c)
    | Some col =>
        let (r, stored) := upload_into (size (config col)) pts (points col) in
        (r, put_collection c collection_name {| config := config col; points := stored |})
    end.

End Qdrant.

Import Qdrant.

Section MoviesCollection.

(** The sentence encoder: [encoder.get_sentence_embedding_dimension()] and
    [encoder.encode]. *)
Variable encoder_dimension : nat.
Variable encode : string -> list R.

(** The similarity ranking the database applies to the stored points; it
    is approximate and not specified. *)
Variable rank : Distance -> list R -> list Record_ -> list Record_.

(** [search]: the [limit] best hits of the ranking.  It reads the client
    and leaves it as it is. *)
Definition search (collection_name : string) (query_vector : list R) (limit : Z)
  : Op (list Record_) :=
  fun c =>
    match get_collection c collection_name with
    | None => (Raise (CollectionNotFound collection_name), c)
    | Some col =>
        if Nat.eqb (length query_vector) (size (config col)) then
          (Ok (firstn (Z.to_nat limit)
                      (rank (distance (config col)) query_vector (points col))), c)
        else (Raise (WrongVectorSize (size (config col)) (length query_vector)), c)
    end.

(** The movies table: [movies.iterrows()] yields the index and the row. *)
Definition Movies : Type := list (Z * Payload).

(** Modelled from the spec: [movie_buddy.data.get_embeddings] is not part
    of the sources at hand.  The specification has the embeddings be
    "fixed-length floating-point vectors produced by an external encoder",
    and notebook 01 (cell 29) computes the table it caches as
    [encoder.encode(movies["overview"].to_list())]. *)
Definition movies_embeddings (movies : Movies) : list (list R) :=
  map (fun m => encode (overview (snd m))) movies.

Definition COLLECTION_NAME : string := "movies".

(** Cell 39: one record per pair of [zip(movies_embeddings, movies.iterrows())]. *)
Definition records (movies : Movies) : list Record_ :=
  map (fun p => {| id := fst (snd p);
                   vector := fst p;
                   payload := snd (snd p) |})
      (combine (movies_embeddings movies) movies).

Definition seq_op {A B : Type} (o : Op A) (k : A -> Op B) : Op B :=
  fun c =>
    match o c with
    | (Ok a, c') => k a c'
    | (Raise e, c') => (Raise e, c')
    end.

(** Cells 35 and 41 on a fresh in-memory client. *)
Definition build_movies_collection (movies : Movies) : result unit * Client :=
  seq_op (recreate_collection COLLECTION_NAME
            {| size := encoder_dimension; distance := COSINE |})
         (fun _ => upload_points COLLECTION_NAME (records movies))
         in_memory.

(** Cells 43 and 44. *)
Definition search_movies (prompt : string) : Op (list Record_) :=
  search COLLECTION_NAME (encode prompt) 10.



(** Every stored vector of every collection has the collection's size. *)
Definition dimension_invariant (c : Client) : Prop :=
  forall name col,
    get_collection c name = Some col ->
    Forall (fits (size (config col))) (points col).

End MoviesCollection.

(** ** The exercise functions of notebook 03

    The notebook hands them to the learner with the body [...]: a Python
    function whose body is the expression [...] evaluates it and returns
    [None]. *)

Module RAG.

Inductive pyvalue : Type :=
| PyNone
| PyEllipsis
| PyInt (z : Z)
| PyStr (s : string).

(** The calls that leave the process, with what they return. *)
Inductive external_call : Type :=
| EncoderEncode (text : pyvalue) (embedding : list R)
| QdrantSearch (collection : pyvalue) (query_vector : list R) (limit : pyvalue)
    (hits : list Payload)
| ChatCompletion (system prompt : string) (completion : string).

(** A run: the value returned and the external calls made, in order. *)
Definition run (A : Type) : Type := (A * list external_call)%type.

Definition done {A : Type} (a : A) : run A := (a, []).

(** The notebook's placeholders. *)
Definition encoder : pyvalue := PyEllipsis.
Definition qdrant : pyvalue := PyEllipsis.
Definition COLLECTION_NAME : pyvalue := PyEllipsis.
Definition SYSTEM : pyvalue := PyEllipsis.
Definition prompt_template : pyvalue := PyEllipsis.
Definition context_template : pyvalue := PyEllipsis.
Definition question : pyvalue := PyEllipsis.

(** [def get_records(query, *, encoder=encoder, client=qdrant,
        collection=COLLECTION_NAME, max_results=10): ...] *)
Definition get_records (query encoder client collection max_results : pyvalue)
  : run pyvalue :=
  done PyNone.

(** [def format_records_into_context(records, *, template): ...] *)
Definition format_records_into_context (records template : pyvalue) : run pyvalue :=
  done PyNone.

(** [def ask(question, *, max_results=10, system=SYSTEM,
        prompt_template=prompt_template, context_template=context_template,
        qdrant=qdrant, collection=COLLECTION_NAME): ...] *)
Definition ask (question max_results system prompt_template context_template
                  qdrant collection : pyvalue) : run pyvalue :=
  done PyNone.

(** [answer = ask(question=question)], the keyword arguments at their
    defaults. *)
Definition answer : run pyvalue :=
  ask question (PyInt 10) SYSTEM prompt_template context_template qdrant COLLECTION_NAME.

(** The order the specification describes for a query: encode it, search
    the vector database, format the hits into a prompt, call the language
    model, return its completion. *)
Definition encode_search_prompt_complete (question : pyvalue) (r : run pyvalue) : Prop :=
  exists embedding collection limit hits system prompt completion,
    snd r = [EncoderEncode question embedding;
             QdrantSearch collection embedding limit hits;
             ChatCompletion system prompt completion]
    /\ fst r = PyStr completion.

End RAG.

(** ** The callers in notebook 02

    Cell 15 draws the data of the timing experiment and cell 17 runs the
    search on it. *)






(** Cell 45 prints one block per hit:
    [[
    for res in hits:
        payload = res.payload
        print(
            "Title: {title}\nRelease date: {release_date}\nRuntime: {runtime}\n\n".format(
                title=payload["title"],
                release_date=payload["release_date"],
                runtime=payload["runtime"],
            )
        )
    ]] *)
Definition newline : string := String "010"%char EmptyString.

Definition format_hit (pl : Payload) : string :=
  ("Title: " ++ title pl ++ newline
   ++ "Release date: " ++ release_date pl ++ newline
   ++ "Runtime: " ++ runtime pl ++ newline ++ newline)%string.

(** The texts handed to [print], one call after the other. *)
Definition print_hits (hits : list Record_) : list string :=
  map (fun res => format_hit (payload res)) hits.

(** The ranking of the database returns stored points only. *)
Definition rank_returns_stored
           (rank : Distance -> list R -> list Record_ -> list Record_) : Prop :=
  forall d query_vector pts, incl (rank d query_vector pts) pts.

Section SearchAndPrint.

Variable encoder_dimension : nat.
Variable encode : string -> list R.
Variable rank : Distance -> list R -> list Record_ -> list Record_.

(** Cells 35 to 45 in a row: build the collection, search it for the
    prompt, print the hits. *)
Definition movies_search_output (movies : Movies) (prompt : string)
  : result (list string) :=
  match build_movies_collection encoder_dimension encode movies with
  | (Ok _, c) =>
      match search_movies encode rank prompt c with
      | (Ok hits, _) => Ok (print_hits hits)
      | (Raise e, _) => Raise e
      end
  | (Raise e, _) => Raise e
  end.

End SearchAndPrint.

(** ** Sample data *)

Definition sample_query : list R := [0; 0]%R.

Definition sample_vectors : ndarray2 := Matrix 2 [[3; 4]; [0; 1]; [1; 1]]%R.

(** A query of length 1 and one of length 3, against rows of length 2. *)
Definition short_query : list R := [0]%R.

Definition long_query : list R := [1; 2; 3]%R.

(** Two stores that hold the sample arrays at different places. *)
Definition sample_store : store := [Float1 sample_query; Float2 sample_vectors].


(** A two-dimensional stand-in for the sentence encoder. *)
Definition sample_encode (text : string) : list R :=
  [INR (String.length text); 1%R].

Definition sample_rank (d : Distance) (query_vector : list R) (pts : list Record_)
  : list Record_ := pts.

Definition sample_movies : Movies :=
  [(0%Z, {| title := "Alien"; overview := "A crew meets a creature";
            release_date := "1979"; runtime := "117"; genre := "Horror" |});
   (1%Z, {| title := "Up"; overview := "A house flies";
            release_date := "2009"; runtime := "96"; genre := "Animation" |})].




(** A column matrix, and a matrix whose rows lie at three different
    distances from [sample_query]. *)
Definition column_vectors : ndarray2 := Matrix 1 [[3]; [0]; [1]]%R.

(** The identity ranking reversed: another argsort for the ties. *)
Definition argsort_reversed_ties (v : list R) : list nat :=
  insert_all (fun j => nth j v 0%R) (rev (seq 0 (length v))) [].

(** * Properties *)

(** ** Lists, slices and sorted index lists *)

Section ListFacts.

Context {A : Type}.

Lemma firstn_incl (n : nat) (l : list A) : incl (firstn n l) l.
Proof.
  intros x Hx. rewrite <- (firstn_skipn n l). apply in_or_app. now left.
Qed.


Lemma slice_upto_nonneg (l : list A) (k : Z) :
  (0 <= k)%Z -> slice_upto l k = firstn (Z.to_nat k) l.
Proof.
  intros Hk. unfold slice_upto.
  destruct (Z.ltb_spec k 0); [lia | reflexivity].
Qed.

Lemma slice_upto_incl (l : list A) (k : Z) : incl (slice_upto l k) l.
Proof.
  unfold slice_upto. destruct (k <? 0)%Z; apply firstn_incl.
Qed.



Lemma StronglySorted_app_l (le : A -> A -> Prop) (l1 l2 : list A) :
  StronglySorted le (l1 ++ l2) -> StronglySorted le l1.
Proof.
  induction l1 as [|a l1 IH]; simpl; intros Hs; [constructor|].
  apply StronglySorted_inv in Hs. destruct Hs as [Hs Hall].
  constructor; [now apply IH|].
  rewrite Forall_forall in *. intros x Hx. apply Hall, in_or_app. now left.
Qed.

End ListFacts.

Lemma Rle_transitive : Relations_1.Transitive Rle.
Proof. intros x y z; apply Rle_trans. Qed.

Lemma Sorted_Rle_strong (l : list R) : Sorted Rle l -> StronglySorted Rle l.
Proof. apply Sorted_StronglySorted, Rle_transitive. Qed.

(** Two ordered lists with the same elements are the same list. *)
Lemma Sorted_Rle_unique (l1 l2 : list R) :
  Sorted Rle l1 -> Sorted Rle l2 -> Permutation l1 l2 -> l1 = l2.
Proof.
  intros H1 H2. apply Sorted_Rle_strong in H1, H2.
  revert l2 H2. induction H1 as [|a l1 Hs1 IH Ha]; intros l2 H2 Hp.
  - apply Permutation_nil in Hp. now subst.
  - destruct H2 as [|b l2 Hs2 Hb].
    + apply Permutation_sym, Permutation_nil in Hp. discriminate.
    + assert (Hab : a = b).
      { rewrite Forall_forall in Ha, Hb.
        assert (Hina : In a (b :: l2))
          by (eapply Permutation_in; [exact Hp | now left]).
        assert (Hinb : In b (a :: l1))
          by (eapply Permutation_in; [apply Permutation_sym; exact Hp | now left]).
        destruct Hina as [->|Hina]; [reflexivity|].
        destruct Hinb as [->|Hinb]; [reflexivity|].
        apply Rle_antisym; [apply Ha, Hinb | apply Hb, Hina]. }
      subst b. f_equal. apply IH; [assumption|].
      eapply Permutation_cons_inv; exact Hp.
Qed.

Lemma map_nth_seq {A : Type} (l : list A) (d : A) :
  map (fun i => nth i l d) (seq 0 (length l)) = l.
Proof.
  induction l as [|a l IH]; [reflexivity|].
  simpl. f_equal. rewrite <- seq_shift, map_map. exact IH.
Qed.

Lemma nth_map_in_range {A B : Type} (f : A -> B) (l : list A) (i : nat) (d : A) (e : B) :
  i < length l -> nth i (map f l) e = f (nth i l d).
Proof.
  intros Hi. rewrite (nth_indep (map f l) e (f d)) by now rewrite length_map.
  apply map_nth.
Qed.

(** ** The array operations *)

Lemma take_rows_in_range (rs : list (list R)) (idx : list nat) :
  Forall (fun i => i < length rs) idx ->
  take_rows rs idx = Ok (map (fun i => nth i rs []) idx).
Proof.
  induction 1 as [|i idx Hi _ IH]; [reflexivity|].
  simpl. rewrite (nth_error_nth' rs [] Hi), IH. reflexivity.
Qed.

Lemma np_subtract_matching (a : ndarray2) (b : list R) :
  length b = ncols a ->
  np_subtract a b =
    Ok (Matrix (ncols a)
          (map (fun r => map (fun p => fst p - snd p)%R (combine r b)) (rows a))).
Proof.
  intros Hb. unfold np_subtract. rewrite Hb, Nat.eqb_refl. reflexivity.
Qed.

Lemma np_subtract_mismatch (a : ndarray2) (b : list R) :
  length b <> ncols a -> length b <> 1 -> ncols a <> 1 ->
  np_subtract a b = Raise (ValueError_broadcast (nrows a) (ncols a) (length b)).
Proof.
  intros H1 H2 H3. unfold np_subtract.
  destruct (Nat.eqb_spec (ncols a) (length b)); [congruence|].
  destruct (Nat.eqb_spec (length b) 1); [congruence|].
  destruct (Nat.eqb_spec (ncols a) 1); [congruence|].
  reflexivity.
Qed.

Lemma np_subtract_broadcasts (a : ndarray2) (b : list R) :
  length b = ncols a \/ length b = 1 \/ ncols a = 1 ->
  exists diff, np_subtract a b = Ok diff /\ nrows diff = nrows a.
Proof.
  intros H. unfold np_subtract.
  destruct (Nat.eqb_spec (ncols a) (length b));
    [eexists; split; [reflexivity | apply length_map]|].
  destruct (Nat.eqb_spec (length b) 1);
    [eexists; split; [reflexivity | apply length_map]|].
  destruct (Nat.eqb_spec (ncols a) 1);
    [eexists; split; [reflexivity | apply length_map]|].
  exfalso. destruct H as [H|[H|H]]; congruence.
Qed.

(** ** What the contract of [np.argsort] gives *)

Section ArgsortFacts.

Variable np_argsort : list R -> list nat.
Hypothesis argsort_ok : argsort_contract np_argsort.

Lemma argsort_permutation (v : list R) :
  Permutation (np_argsort v) (seq 0 (length v)).
Proof. apply argsort_ok. Qed.

Lemma argsort_in_range (v : list R) :
  Forall (fun i => i < length v) (np_argsort v).
Proof.
  apply Forall_forall. intros i Hi.
  apply (Permutation_in _ (argsort_permutation v)) in Hi.
  apply in_seq in Hi. lia.
Qed.



Lemma argsort_length (v : list R) : length (np_argsort v) = length v.
Proof.
  rewrite (Permutation_length (argsort_permutation v)). apply length_seq.
Qed.

Lemma argsort_sorted (v : list R) :
  StronglySorted Rle (map (fun i => nth i v 0%R) (np_argsort v)).
Proof. apply Sorted_Rle_strong, argsort_ok. Qed.

(** The values read in the order of the argsort are the values. *)
Lemma argsort_values (v : list R) :
  Permutation (map (fun i => nth i v 0%R) (np_argsort v)) v.
Proof.
  rewrite <- (map_nth_seq v 0%R) at 2.
  apply Permutation_map, argsort_permutation.
Qed.

End ArgsortFacts.

(** ** Straight insertion *)

Section InsertBy.

Context {A : Type} (key : A -> R).

Lemma insert_by_permutation (x : A) (l : list A) :
  Permutation (insert_by key x l) (x :: l).
Proof.
  induction l as [|y l IH]; simpl; [reflexivity|].
  destruct (Rle_dec (key y) (key x)); [|reflexivity].
  rewrite IH. apply perm_swap.
Qed.

Lemma insert_by_HdRel (a x : A) (l : list A) :
  (key a <= key x)%R ->
  HdRel Rle (key a) (map key l) ->
  HdRel Rle (key a) (map key (insert_by key x l)).
Proof.
  intros Hax Hl. destruct l as [|y l]; simpl; [now constructor|].
  destruct (Rle_dec (key y) (key x)); simpl; constructor;
    [now inversion Hl | assumption].
Qed.

Lemma insert_by_sorted (x : A) (l : list A) :
  Sorted Rle (map key l) -> Sorted Rle (map key (insert_by key x l)).
Proof.
  induction l as [|y l IH]; simpl; intros Hs.
  - repeat constructor.
  - apply Sorted_inv in Hs. destruct Hs as [Hs Hhd].
    destruct (Rle_dec (key y) (key x)) as [Hle|Hgt]; simpl.
    + constructor; [now apply IH | now apply insert_by_HdRel].
    + constructor; [now constructor | constructor; lra].
Qed.

Lemma insert_all_permutation (xs acc : list A) :
  Permutation (insert_all key xs acc) (xs ++ acc).
Proof.
  revert acc. induction xs as [|x xs IH]; intros acc; simpl; [reflexivity|].
  unfold insert_all in *. simpl. rewrite IH, insert_by_permutation.
  symmetry. apply Permutation_middle.
Qed.

Lemma insert_all_sorted (xs acc : list A) :
  Sorted Rle (map key acc) -> Sorted Rle (map key (insert_all key xs acc)).
Proof.
  revert acc. induction xs as [|x xs IH]; intros acc Hs; [exact Hs|].
  unfold insert_all in *. simpl. now apply IH, insert_by_sorted.
Qed.

End InsertBy.

(** [argsort_stable] meets the contract of [np.argsort]. *)
Lemma argsort_stable_contract : argsort_contract argsort_stable.
Proof.
  intros v. unfold argsort_stable. split.
  - rewrite insert_all_permutation, app_nil_r. reflexivity.
  - apply insert_all_sorted. constructor.
Qed.

(** ** [k_closest_vectors] on a query of the matrix's dimension *)

Lemma distances_of_matching (target_vec : list R) (vectors : ndarray2) :
  length target_vec = ncols vectors ->
  distances_of target_vec vectors
  = Ok (map (fun r => euclidean r target_vec) (rows vectors)).
Proof.
  intros Hd. unfold distances_of. rewrite (np_subtract_matching _ _ Hd). simpl.
  unfold np_sqrt, np_sum_axis1, np_power. simpl.
  rewrite !map_map. f_equal. apply map_ext. intros r.
  unfold euclidean. now rewrite map_map.
Qed.

Lemma distance_at (target_vec : list R) (vectors : ndarray2) (i : nat) :
  i < nrows vectors ->
  nth i (map (fun r => euclidean r target_vec) (rows vectors)) 0%R
  = euclidean (row vectors i) target_vec.
Proof.
  intros Hi.
  exact (nth_map_in_range (fun r => euclidean r target_vec) (rows vectors) i [] 0%R Hi).
Qed.

Section NearestNeighbourFacts.

Variable np_argsort : list R -> list nat.
Hypothesis argsort_ok : argsort_contract np_argsort.

Lemma k_closest_vectors_matching (target_vec : list R) (vectors : ndarray2) (k : Z) :
  length target_vec = ncols vectors ->
  k_closest_vectors np_argsort target_vec vectors k
  = Ok (Matrix (ncols vectors)
          (map (row vectors)
             (slice_upto
                (np_argsort (map (fun r => euclidean r target_vec) (rows vectors))) k))).
Proof.
  intros Hd. unfold k_closest_vectors.
  rewrite (distances_of_matching _ _ Hd). simpl.
  unfold np_take. rewrite take_rows_in_range; [reflexivity|].
  apply Forall_forall. intros i Hi. apply slice_upto_incl in Hi.
  pose proof (argsort_in_range _ argsort_ok
                (map (fun r => euclidean r target_vec) (rows vectors))) as Hr.
  rewrite Forall_forall in Hr. specialize (Hr i Hi).
  now rewrite length_map in Hr.
Qed.

(** The distances of the selected rows are the first values of the
    ordered distance array. *)
Lemma selected_distances (target_vec : list R) (vectors : ndarray2) (m : nat) :
  let ds := map (fun r => euclidean r target_vec) (rows vectors) in
  map (fun r => euclidean r target_vec)
      (map (row vectors) (firstn m (np_argsort ds)))
  = firstn m (map (fun i => nth i ds 0%R) (np_argsort ds)).
Proof.
  intros ds. rewrite map_map, firstn_map. apply map_ext_in. intros i Hi.
  symmetry. apply distance_at. apply firstn_incl in Hi.
  pose proof (argsort_in_range _ argsort_ok ds) as Hr.
  rewrite Forall_forall in Hr. specialize (Hr i Hi).
  unfold ds in Hr. now rewrite length_map in Hr.
Qed.

Lemma firstn_sorted (m : nat) (l : list R) :
  StronglySorted Rle l -> StronglySorted Rle (firstn m l).
Proof.
  intros Hs. rewrite <- (firstn_skipn m l) in Hs.
  eapply StronglySorted_app_l. exact Hs.
Qed.


End NearestNeighbourFacts.

(** ** Evaluation on explicit arrays *)

(** Evaluate [k_closest_vectors argsort_stable] on explicit arrays down to
    the comparisons of the insertion sort. *)
Ltac evaluate_search :=
  unfold k_closest_vectors, distances_of, np_subtract;
  cbn [ncols rows length Nat.eqb rbind map hd nrows fold_right combine fst snd];
  unfold np_sqrt, np_sum_axis1, np_power;
  cbn [ncols rows length Nat.eqb rbind map hd nrows fold_right combine fst snd];
  unfold argsort_stable, insert_all;
  cbn [length seq fold_left insert_by nth].

(** Settle a comparison of two square roots of explicit sums. *)
Ltac compare_roots :=
  match goal with
  | |- context [Rle_dec (sqrt ?a) (sqrt ?b)] =>
      let H := fresh "Hcmp" in
      destruct (Rle_dec (sqrt a) (sqrt b)) as [H|H];
      [ try (exfalso; apply sqrt_le_0 in H; lra)
      | try (exfalso; apply H, sqrt_le_1; lra) ];
      cbn [fold_left insert_by nth]
  end.

(** ** The claims on the nearest-neighbour search *)

(** Whenever the subtraction broadcasts, the rows returned are the rows at
    the sliced argsort of the distance array, which has one entry per row. *)
Lemma k_closest_vectors_value (np_argsort : list R -> list nat)
      (target_vec : list R) (vectors : ndarray2) (k : Z) :
  argsort_contract np_argsort ->
  length target_vec = ncols vectors \/ length target_vec = 1 \/ ncols vectors = 1 ->
  exists distances,
    distances_of target_vec vectors = Ok distances /\
    length distances = nrows vectors /\
    k_closest_vectors np_argsort target_vec vectors k
    = Ok (Matrix (ncols vectors)
            (map (row vectors) (slice_upto (np_argsort distances) k))).
Proof.
  intros Hsort Hshape.
  destruct (np_subtract_broadcasts vectors target_vec Hshape) as (diff & Hdiff & Hn).
  unfold k_closest_vectors, distances_of. rewrite Hdiff. simpl.
  set (ds := np_sqrt (np_sum_axis1 (np_power diff 2))).
  assert (Hlen : length ds = nrows vectors).
  { unfold ds, np_sqrt, np_sum_axis1, np_power. simpl. now rewrite !length_map. }
  exists ds. split; [reflexivity|]. split; [exact Hlen|].
  unfold np_take. rewrite take_rows_in_range; [reflexivity|].
  apply Forall_forall. intros i Hi. apply slice_upto_incl in Hi.
  pose proof (argsort_in_range _ Hsort ds) as Hr.
  rewrite Forall_forall in Hr. specialize (Hr i Hi).
  now rewrite Hlen in Hr.
Qed.

(** The distances of the returned rows, in the order returned, are the
    first values of the distance array put in order. *)
Lemma returned_distances (np_argsort : list R -> list nat)
      (target_vec : list R) (vectors : ndarray2) (k : Z) :
  argsort_contract np_argsort ->
  length target_vec = ncols vectors ->
  (0 <= k)%Z ->
  exists closest,
    k_closest_vectors np_argsort target_vec vectors k = Ok closest /\
    rows closest
    = map (row vectors)
        (firstn (Z.to_nat k)
           (np_argsort (map (fun r => euclidean r target_vec) (rows vectors)))) /\
    map (fun r => euclidean r target_vec) (rows closest)
    = firstn (Z.to_nat k)
        (map (fun i => nth i (map (fun r => euclidean r target_vec) (rows vectors)) 0%R)
           (np_argsort (map (fun r => euclidean r target_vec) (rows vectors)))).
Proof.
  intros Hsort Hd Hk. eexists. split; [|split].
  - rewrite (k_closest_vectors_matching _ Hsort _ _ k Hd).
    rewrite slice_upto_nonneg by assumption. reflexivity.
  - reflexivity.
  - simpl. apply (selected_distances _ Hsort).
Qed.

(** The search on the sample data, evaluated: of the rows at distances 5, 1
    and [sqrt 2] the two closest come back, the closest first. *)
Example k_closest_vectors_sample :
  k_closest_vectors argsort_stable sample_query sample_vectors 2
  = Ok (Matrix 2 [[0; 1]; [1; 1]]%R).
Proof.
  unfold sample_query, sample_vectors.
  evaluate_search. repeat compare_roots. reflexivity.
Qed.





(** C6.  [k_closest_vectors] is total in [k]: whenever the subtraction
    raises nothing, the slice of the argsort never fails; for every [k >= 0]
    the result has [min k n] rows; when [k >= n] no error is raised and all
    [n] rows of the matrix are returned; and for a query of the matrix's
    dimension they come in the order of their distance. *)
Theorem k_closest_vectors_total_in_k :
  forall (np_argsort : list R -> list nat)
         (target_vec : list R) (vectors : ndarray2) (k : Z),
    argsort_contract np_argsort ->
    well_shaped vectors ->
    length target_vec = ncols vectors \/ length target_vec = 1 \/ ncols vectors = 1 ->
    (0 <= k)%Z ->
    exists closest : ndarray2,
      k_closest_vectors np_argsort target_vec vectors k = Ok closest /\
      nrows closest = Nat.min (Z.to_nat k) (nrows vectors) /\
      ((Z.of_nat (nrows vectors) <= k)%Z ->
       nrows closest = nrows vectors /\
       Permutation (rows closest) (rows vectors)) /\
      (length target_vec = ncols vectors ->
       Sorted Rle (map (fun r => euclidean r target_vec) (rows closest))).
Proof.
  intros np_argsort target_vec vectors k Hsort _ Hshape Hk.
  destruct (k_closest_vectors_value np_argsort target_vec vectors k Hsort Hshape)
    as (ds & _ & Hlen & Hrun).
  rewrite slice_upto_nonneg in Hrun by assumption.
  set (selected := map (row vectors) (firstn (Z.to_nat k) (np_argsort ds))) in *.
  exists (Matrix (ncols vectors) selected). split; [exact Hrun|].
  change (nrows (Matrix (ncols vectors) selected)) with (length selected).
  change (rows (Matrix (ncols vectors) selected)) with selected.
  assert (Hn : length selected = Nat.min (Z.to_nat k) (nrows vectors)).
  { unfold selected. rewrite length_map, length_firstn.
    now rewrite (argsort_length _ Hsort), Hlen. }
  split; [exact Hn|]. split.
  - intros Hbig. split; [rewrite Hn; lia|].
    unfold selected.
    rewrite firstn_all2 by (rewrite (argsort_length _ Hsort), Hlen; lia).
    rewrite <- (map_nth_seq (rows vectors) []) at 1.
    apply (Permutation_map (row vectors)). fold (nrows vectors). rewrite <- Hlen.
    apply (argsort_permutation _ Hsort).
  - intros Hd.
    destruct (returned_distances np_argsort target_vec vectors k Hsort Hd Hk)
      as (closest & Hrun' & _ & Hdist).
    rewrite Hrun in Hrun'. injection Hrun' as <-.
    simpl in Hdist. rewrite Hdist.
    apply StronglySorted_Sorted, firstn_sorted, (argsort_sorted _ Hsort).
Qed.

Lemma k_closest_vectors_total_in_k_witness :
  exists closest : ndarray2,
    k_closest_vectors argsort_stable sample_query sample_vectors 7 = Ok closest /\
    nrows closest = Nat.min (Z.to_nat 7) (nrows sample_vectors) /\
    ((Z.of_nat (nrows sample_vectors) <= 7)%Z ->
     nrows closest = nrows sample_vectors /\
     Permutation (rows closest) (rows sample_vectors)) /\
    (length sample_query = ncols sample_vectors ->
     Sorted Rle (map (fun r => euclidean r sample_query) (rows closest))).
Proof.
  apply (k_closest_vectors_total_in_k argsort_stable sample_query sample_vectors 7).
  - apply argsort_stable_contract.
  - repeat constructor.
  - left. reflexivity.
  - lia.
Defined.



(** With the stable argsort the two functions return the very same rows. *)
Section StableAgreement.

Context {A B : Type} (f : A -> B) (keyA : A -> R) (keyB : B -> R).

Lemma insert_by_map (x : A) (l : list A) :
  (forall y, In y (x :: l) -> keyB (f y) = keyA y) ->
  map f (insert_by keyA x l) = insert_by keyB (f x) (map f l).
Proof.
  induction l as [|y l IH]; intros Hkey; [reflexivity|].
  simpl. rewrite (Hkey x), (Hkey y) by (simpl; auto).
  destruct (Rle_dec (keyA y) (keyA x)); [|reflexivity].
  simpl. f_equal. apply IH. intros z [Hz|Hz]; apply Hkey; simpl; auto.
Qed.

Lemma insert_all_map (xs acc : list A) :
  (forall y, In y (xs ++ acc) -> keyB (f y) = keyA y) ->
  map f (insert_all keyA xs acc) = insert_all keyB (map f xs) (map f acc).
Proof.
  revert acc. induction xs as [|x xs IH]; intros acc Hkey; [reflexivity|].
  unfold insert_all in *. simpl. rewrite IH.
  - f_equal. apply insert_by_map. intros y Hy. apply Hkey.
    destruct Hy as [<-|Hy]; [now left|]. right. apply in_or_app. now right.
  - intros y Hy. apply Hkey. apply in_app_or in Hy. destruct Hy as [Hy|Hy].
    + right. apply in_or_app. now left.
    + apply (Permutation_in _ (insert_by_permutation keyA x acc)) in Hy.
      destruct Hy as [<-|Hy]; [now left|]. right. apply in_or_app. now right.
Qed.

End StableAgreement.

Lemma k_closest_vectors_stable_is_linear_scan
      (target_vec : list R) (vectors : ndarray2) (k : Z) :
  length target_vec = ncols vectors ->
  (0 <= k)%Z ->
  k_closest_vectors argsort_stable target_vec vectors k
  = Ok (Matrix (ncols vectors) (linear_scan_reference target_vec vectors k)).
Proof.
  intros Hd Hk.
  rewrite (k_closest_vectors_matching _ argsort_stable_contract _ _ k Hd).
  rewrite slice_upto_nonneg by assumption.
  unfold linear_scan_reference, argsort_stable. do 2 f_equal.
  rewrite <- firstn_map. f_equal.
  set (ds := map (fun r => euclidean r target_vec) (rows vectors)).
  rewrite (insert_all_map (row vectors) (fun j => nth j ds 0%R)
             (fun r => euclidean r target_vec)).
  - simpl. f_equal. unfold ds. rewrite length_map. apply map_nth_seq.
  - intros i Hi. rewrite app_nil_r in Hi. apply in_seq in Hi.
    symmetry. apply distance_at. unfold ds in Hi. rewrite length_map in Hi.
    unfold nrows. lia.
Qed.

(** ** The store *)

Lemma lookup_old (s fresh : store) (r : ref) (o : pyobj) :
  nth_error s r = Some o -> nth_error (s ++ fresh) r = Some o.
Proof.
  intros Hr. rewrite nth_error_app1; [exact Hr|].
  apply nth_error_Some. congruence.
Qed.

Lemma lookup_new (s fresh : store) (o : pyobj) :
  nth_error (s ++ o :: fresh) (length s) = Some o.
Proof. rewrite nth_error_app2, Nat.sub_diag by lia. reflexivity. Qed.

Ltac unfold_calls :=
  cbv beta iota delta
      [k_closest_vectors_obj obj_subtract obj_power obj_sum_axis1 obj_sqrt
       obj_argsort obj_slice_upto obj_take
       bind ret lift read alloc as_float1 as_float2 as_int1].

(** A run of the object-level function on two arrays of the store: the
    arrays it allocates, and the value of the pure function. *)
Lemma k_closest_vectors_obj_run (np_argsort : list R -> list nat)
      (s : store) (target_vec vectors : ref) (k : Z) (tv : list R) (vv : ndarray2) :
  nth_error s target_vec = Some (Float1 tv) ->
  nth_error s vectors = Some (Float2 vv) ->
  k_closest_vectors_obj np_argsort target_vec vectors k s
  = match np_subtract vv tv with
    | Raise e => (Raise e, s)
    | Ok diff =>
        let squares := np_power diff 2 in
        let sums := np_sum_axis1 squares in
        let distances := np_sqrt sums in
        let order := np_argsort distances in
        let k_closest_indices := slice_upto order k in
        let s' := s ++ [Float2 diff; Float2 squares; Float1 sums; Float1 distances;
                        Int1 order; Int1 k_closest_indices] in
        match np_take vv k_closest_indices with
        | Ok closest => (Ok (length s + 6), s' ++ [Float2 closest])
        | Raise e => (Raise e, s')
        end
    end.
Proof.
  intros Ht Hv. unfold_calls. rewrite Hv, Ht. cbv beta iota.
  destruct (np_subtract vv tv) as [diff|e]; [|reflexivity].
  cbv beta iota zeta.
  repeat (rewrite lookup_new; cbv beta iota).
  rewrite (lookup_old _ _ _ _ (lookup_old _ _ _ _ (lookup_old _ _ _ _
            (lookup_old _ _ _ _ (lookup_old _ _ _ _ (lookup_old _ _ _ _ Hv)))))).
  cbv beta iota.
  rewrite (lookup_new _ []). cbv beta iota.
  destruct (np_take vv _) as [closest|e].
  - f_equal.
    + f_equal. rewrite !length_app. simpl. lia.
    + rewrite <- !app_assoc. reflexivity.
  - f_equal. rewrite <- !app_assoc. reflexivity.
Qed.

(** Either both references lead to arrays of the expected kinds, or the call
    stops with [TypeError] before anything is allocated. *)
Lemma k_closest_vectors_obj_cases (np_argsort : list R -> list nat)
      (s : store) (target_vec vectors : ref) (k : Z) :
  (exists tv vv,
      nth_error s target_vec = Some (Float1 tv) /\
      nth_error s vectors = Some (Float2 vv))
  \/ k_closest_vectors_obj np_argsort target_vec vectors k s = (Raise TypeError, s).
Proof.
  destruct (nth_error s vectors) as [[v|vv|i]|] eqn:Hv;
    try (right; unfold_calls; rewrite Hv; reflexivity).
  destruct (nth_error s target_vec) as [[tv|a|i]|] eqn:Ht;
    try (right; unfold_calls; rewrite Hv; cbv beta iota; rewrite Ht; reflexivity).
  left. now exists tv, vv.
Qed.

(** What the caller observes is the value of the pure function on the
    elements of the two arrays. *)
Lemma outcome_k_closest_vectors_obj (np_argsort : list R -> list nat)
      (s : store) (target_vec vectors : ref) (k : Z) :
  outcome (k_closest_vectors_obj np_argsort target_vec vectors k) s
  = match nth_error s vectors, nth_error s target_vec with
    | Some (Float2 vv), Some (Float1 tv) =>
        match k_closest_vectors np_argsort tv vv k with
        | Ok closest => Ok (Float2 closest)
        | Raise e => Raise e
        end
    | _, _ => Raise TypeError
    end.
Proof.
  unfold outcome.
  destruct (k_closest_vectors_obj_cases np_argsort s target_vec vectors k)
    as [(tv & vv & Ht & Hv) | Hbad].
  - rewrite (k_closest_vectors_obj_run np_argsort s target_vec vectors k tv vv Ht Hv).
    rewrite Ht, Hv. unfold k_closest_vectors, distances_of, rbind.
    destruct (np_subtract vv tv) as [diff|e]; [|reflexivity].
    cbv zeta. destruct (np_take vv _) as [closest|e]; [|reflexivity].
    replace (length s + 6) with (length (s ++ [Float2 diff; Float2 (np_power diff 2);
      Float1 (np_sum_axis1 (np_power diff 2));
      Float1 (np_sqrt (np_sum_axis1 (np_power diff 2)));
      Int1 (np_argsort (np_sqrt (np_sum_axis1 (np_power diff 2))));
      Int1 (slice_upto (np_argsort (np_sqrt (np_sum_axis1 (np_power diff 2)))) k)]))
      by (rewrite length_app; reflexivity).
    now rewrite lookup_new.
  - rewrite Hbad.
    destruct (nth_error s vectors) as [[v|vv|i]|] eqn:Hv; try reflexivity.
    destruct (nth_error s target_vec) as [[tv|a|i]|] eqn:Ht; try reflexivity.
    rewrite (k_closest_vectors_obj_run np_argsort s target_vec vectors k tv vv Ht Hv)
      in Hbad.
    unfold k_closest_vectors, distances_of, rbind.
    destruct (np_subtract vv tv) as [diff|e]; [|congruence].
    cbv zeta in Hbad |- *. destruct (np_take vv _) as [closest|e]; congruence.
Qed.

(** The same call through the store: the caller gets a new array with the
    two closest rows. *)
Example k_closest_vectors_obj_sample :
  outcome (k_closest_vectors_obj argsort_stable 0 1 2) sample_store
  = Ok (Float2 (Matrix 2 [[0; 1]; [1; 1]]%R)).
Proof.
  rewrite outcome_k_closest_vectors_obj. simpl.
  now rewrite k_closest_vectors_sample.
Qed.

(** ** Queries of another dimension *)

(** C3, the claim as stated fails: a query of length 1 against rows of
    length 2 is a dimension mismatch, yet the subtraction broadcasts, no
    error is raised and a row is returned. *)
Lemma mismatched_query_is_broadcast :
  length short_query <> ncols sample_vectors /\
  k_closest_vectors argsort_stable short_query sample_vectors 1
  = Ok (Matrix 2 [[0; 1]]%R).
Proof.
  split; [simpl; lia|].
  unfold short_query, sample_vectors.
  evaluate_search. repeat compare_roots. reflexivity.
Qed.

(** C3, as amended.  [k_closest_vectors] validates nothing and handles
    nothing.  When the length of the query differs from the row length of
    the matrix and neither of them is 1, the [ValueError] of the broadcast
    subtraction reaches the caller as raised, nothing is allocated and no
    partial result comes back.  When the lengths are equal or one of them is
    1, no error is raised. *)
Theorem k_closest_vectors_dimension_mismatch :
  forall (np_argsort : list R -> list nat)
         (target_vec : list R) (vectors : ndarray2) (k : Z),
    argsort_contract np_argsort ->
    (length target_vec <> ncols vectors ->
     length target_vec <> 1 ->
     ncols vectors <> 1 ->
     exists e,
       np_subtract vectors target_vec = Raise e /\
       e = ValueError_broadcast (nrows vectors) (ncols vectors) (length target_vec) /\
       k_closest_vectors np_argsort target_vec vectors k = Raise e /\
       forall (s : store) (t v : ref),
         nth_error s t = Some (Float1 target_vec) ->
         nth_error s v = Some (Float2 vectors) ->
         k_closest_vectors_obj np_argsort t v k s = (Raise e, s))
    /\
    (length target_vec = ncols vectors \/ length target_vec = 1 \/ ncols vectors = 1 ->
     exists closest,
       k_closest_vectors np_argsort target_vec vectors k = Ok closest).
Proof.
  intros np_argsort target_vec vectors k Hsort. split.
  - intros H1 H2 H3.
    pose proof (np_subtract_mismatch vectors target_vec H1 H2 H3) as Hsub.
    eexists. split; [exact Hsub|]. split; [reflexivity|]. split.
    + unfold k_closest_vectors, distances_of. now rewrite Hsub.
    + intros s t v Ht Hv.
      rewrite (k_closest_vectors_obj_run np_argsort s t v k _ _ Ht Hv).
      now rewrite Hsub.
  - intros Hshape.
    destruct (k_closest_vectors_value np_argsort target_vec vectors k Hsort Hshape)
      as (distances & _ & _ & Hrun).
    eexists. exact Hrun.
Qed.

Lemma k_closest_vectors_dimension_mismatch_witness :
  (exists e,
      np_subtract sample_vectors long_query = Raise e /\
      e = ValueError_broadcast (nrows sample_vectors) (ncols sample_vectors)
                               (length long_query) /\
      k_closest_vectors argsort_stable long_query sample_vectors 1 = Raise e /\
      forall (s : store) (t v : ref),
        nth_error s t = Some (Float1 long_query) ->
        nth_error s v = Some (Float2 sample_vectors) ->
        k_closest_vectors_obj argsort_stable t v 1 s = (Raise e, s))
  /\
  (exists closest,
      k_closest_vectors argsort_stable short_query sample_vectors 1 = Ok closest).
Proof.
  split.
  - apply (proj1 (k_closest_vectors_dimension_mismatch
                    argsort_stable long_query sample_vectors 1
                    argsort_stable_contract)); simpl; lia.
  - apply (proj2 (k_closest_vectors_dimension_mismatch
                    argsort_stable short_query sample_vectors 1
                    argsort_stable_contract)).
    right. left. reflexivity.
Defined.

(** ** Frame and determinacy *)






(** ** The vector database *)



Section StoredVectors.

Variable sz : nat.



(** Points of the right size are all accepted. *)
Lemma upload_into_accepts (pts stored : list Record_) :
  Forall (fits sz) pts -> fst (upload_into sz pts stored) = Ok tt.
Proof.
  intros Hp. revert stored. induction Hp as [|p pts Hp _ IH]; intros stored; simpl.
  - reflexivity.
  - unfold fits in Hp. rewrite Hp, Nat.eqb_refl. apply IH.
Qed.

End StoredVectors.






Lemma in_memory_invariant : dimension_invariant in_memory.
Proof. intros name col. discriminate. Qed.

Lemma records_fit (encoder_dimension : nat) (encode : string -> list R) (movies : Movies) :
  (forall text, length (encode text) = encoder_dimension) ->
  Forall (fits encoder_dimension) (records encode movies).
Proof.
  intros Hdim. apply Forall_forall. intros p Hp.
  unfold records in Hp. apply in_map_iff in Hp. destruct Hp as ([v m] & <- & Hin).
  simpl. apply in_combine_l in Hin. unfold movies_embeddings in Hin.
  apply in_map_iff in Hin. destruct Hin as (m' & <- & _). apply Hdim.
Qed.



(** ** The question-answering exercise *)

(** C8, the claim as stated fails: on the query of the notebook's own kind,
    [ask] makes no encoder, search or language-model call and does not
    return a completion. *)
Lemma ask_is_a_placeholder :
  ~ RAG.encode_search_prompt_complete
      (RAG.PyStr "Crazy Scientist save the planet from aliens")
      (RAG.ask (RAG.PyStr "Crazy Scientist save the planet from aliens")
               (RAG.PyInt 10) RAG.SYSTEM RAG.prompt_template RAG.context_template
               RAG.qdrant RAG.COLLECTION_NAME).
Proof.
  intros (embedding & collection & limit & hits & system & prompt & completion
          & Hcalls & _).
  discriminate Hcalls.
Qed.

(** C8, as amended.  As the repository has it, [ask] is an exercise left to
    the learner, its body the placeholder [...]: for every question and every
    setting of its keyword arguments it makes no external call and returns
    [None]; so do [get_records] and [format_records_into_context], which it
    is meant to call. *)
Theorem ask_returns_none_without_calls :
  forall question max_results system prompt_template context_template qdrant collection
         encoder records,
    RAG.ask question max_results system prompt_template context_template qdrant collection
    = (RAG.PyNone, []) /\
    RAG.get_records question encoder qdrant collection max_results = (RAG.PyNone, []) /\
    RAG.format_records_into_context records context_template = (RAG.PyNone, []) /\
    RAG.answer = (RAG.PyNone, []).
Proof. intros. repeat split. Qed.

(** * Further properties of the code *)

(** ** The search for every shape and every [k] *)

Lemma np_subtract_nrows (a : ndarray2) (b : list R) (diff : ndarray2) :
  np_subtract a b = Ok diff -> nrows diff = nrows a.
Proof.
  unfold np_subtract.
  destruct (Nat.eqb (ncols a) (length b));
    [intros [= <-]; apply length_map|].
  destruct (Nat.eqb (length b) 1);
    [intros [= <-]; apply length_map|].
  destruct (Nat.eqb (ncols a) 1);
    [intros [= <-]; apply length_map | discriminate].
Qed.

Lemma distances_of_length (target_vec : list R) (vectors : ndarray2) (ds : list R) :
  distances_of target_vec vectors = Ok ds -> length ds = nrows vectors.
Proof.
  unfold distances_of.
  destruct (np_subtract vectors target_vec) as [diff|e] eqn:Hdiff; [|discriminate].
  simpl. intros [= <-]. rewrite <- (np_subtract_nrows _ _ _ Hdiff).
  unfold np_sqrt, np_sum_axis1, np_power. simpl. now rewrite !length_map.
Qed.

(** The indexing never fails: the search is the selection of the rows at
    the sliced argsort, or the exception of the distance line. *)
Lemma k_closest_vectors_unfold (np_argsort : list R -> list nat)
      (target_vec : list R) (vectors : ndarray2) (k : Z) :
  argsort_contract np_argsort ->
  k_closest_vectors np_argsort target_vec vectors k
  = match distances_of target_vec vectors with
    | Ok ds =>
        Ok (Matrix (ncols vectors)
              (map (row vectors) (slice_upto (np_argsort ds) k)))
    | Raise e => Raise e
    end.
Proof.
  intros Hsort. unfold k_closest_vectors.
  destruct (distances_of target_vec vectors) as [ds|e] eqn:Hds; [|reflexivity].
  simpl. unfold np_take. rewrite take_rows_in_range; [reflexivity|].
  apply Forall_forall. intros i Hi. apply slice_upto_incl in Hi.
  pose proof (argsort_in_range _ Hsort ds) as Hr.
  rewrite Forall_forall in Hr. specialize (Hr i Hi).
  now rewrite (distances_of_length _ _ _ Hds) in Hr.
Qed.

(** X1.  A negative [k] raises nothing.  It counts from the far end: the
    call behaves as the call with [max 0 (n + k)], so it drops the [-k]
    farthest rows, and returns no row once [-k] reaches the number of rows. *)
Theorem k_closest_vectors_negative_k :
  forall (np_argsort : list R -> list nat)
         (target_vec : list R) (vectors : ndarray2) (k : Z),
    argsort_contract np_argsort ->
    (k < 0)%Z ->
    k_closest_vectors np_argsort target_vec vectors k
    = k_closest_vectors np_argsort target_vec vectors
        (Z.max 0 (Z.of_nat (nrows vectors) + k))
    /\ (forall closest,
          k_closest_vectors np_argsort target_vec vectors k = Ok closest ->
          nrows closest = nrows vectors - Z.to_nat (- k)).
Proof.
  intros np_argsort target_vec vectors k Hsort Hk.
  rewrite !(k_closest_vectors_unfold _ _ _ _ Hsort).
  destruct (distances_of target_vec vectors) as [ds|e] eqn:Hds;
    [|split; [reflexivity | discriminate]].
  pose proof (distances_of_length _ _ _ Hds) as Hlen.
  assert (Hslice : slice_upto (np_argsort ds) k
                   = firstn (nrows vectors - Z.to_nat (- k)) (np_argsort ds)).
  { unfold slice_upto. destruct (Z.ltb_spec k 0); [|lia].
    rewrite (argsort_length _ Hsort), Hlen. f_equal. lia. }
  split.
  - rewrite Hslice, slice_upto_nonneg by lia.
    replace (Z.to_nat (Z.max 0 (Z.of_nat (nrows vectors) + k)))
      with (nrows vectors - Z.to_nat (- k)) by lia.
    reflexivity.
  - intros closest [= <-]. unfold nrows at 1. simpl.
    rewrite Hslice, length_map, length_firstn, (argsort_length _ Hsort), Hlen. lia.
Qed.

Lemma k_closest_vectors_negative_k_witness :
  k_closest_vectors argsort_stable sample_query sample_vectors (-1)
  = k_closest_vectors argsort_stable sample_query sample_vectors
      (Z.max 0 (Z.of_nat (nrows sample_vectors) + -1))
  /\ (forall closest,
        k_closest_vectors argsort_stable sample_query sample_vectors (-1) = Ok closest ->
        nrows closest = nrows sample_vectors - Z.to_nat (- -1)).
Proof.
  apply (k_closest_vectors_negative_k argsort_stable sample_query sample_vectors (-1)).
  - apply argsort_stable_contract.
  - lia.
Defined.

(** X2.  Asking for more neighbours only appends: for [0 <= k1 <= k2] the
    rows returned for [k1] are the first [k1] rows returned for [k2]. *)
Theorem k_closest_vectors_prefix :
  forall (np_argsort : list R -> list nat)
         (target_vec : list R) (vectors : ndarray2) (k1 k2 : Z) (more : ndarray2),
    argsort_contract np_argsort ->
    (0 <= k1 <= k2)%Z ->
    k_closest_vectors np_argsort target_vec vectors k2 = Ok more ->
    k_closest_vectors np_argsort target_vec vectors k1
    = Ok (Matrix (ncols more) (firstn (Z.to_nat k1) (rows more))).
Proof.
  intros np_argsort target_vec vectors k1 k2 more Hsort Hk.
  rewrite !(k_closest_vectors_unfold _ _ _ _ Hsort).
  destruct (distances_of target_vec vectors) as [ds|e]; [|discriminate].
  intros [= <-]. simpl.
  rewrite !slice_upto_nonneg by lia.
  rewrite firstn_map, firstn_firstn.
  now replace (Nat.min (Z.to_nat k1) (Z.to_nat k2)) with (Z.to_nat k1) by lia.
Qed.

Lemma k_closest_vectors_prefix_witness :
  (0 <= 1 <= 2)%Z /\
  k_closest_vectors argsort_stable sample_query sample_vectors 1
  = Ok (Matrix (ncols (Matrix 2 [[0; 1]; [1; 1]]%R))
               (firstn (Z.to_nat 1) (rows (Matrix 2 [[0; 1]; [1; 1]]%R)))).
Proof.
  split; [lia|].
  apply (k_closest_vectors_prefix argsort_stable sample_query sample_vectors 1 2).
  - apply argsort_stable_contract.
  - lia.
  - exact k_closest_vectors_sample.
Defined.



(** ** What broadcasting computes *)

Lemma subtract_repeat_r (x : R) (r : list R) (d : nat) :
  length r = d ->
  map (fun p => fst p - snd p)%R (combine r (repeat x d))
  = map (fun y => y - x)%R r.
Proof.
  revert d. induction r as [|a r IH]; intros [|d] Hd; try discriminate; [reflexivity|].
  simpl. f_equal. apply IH. now injection Hd.
Qed.

Lemma subtract_repeat_l (a : R) (t : list R) :
  map (fun p => fst p - snd p)%R (combine (repeat a (length t)) t)
  = map (fun y => a - y)%R t.
Proof. induction t as [|y t IH]; [reflexivity|]. simpl. now f_equal. Qed.

Lemma singleton_row (r : list R) : length r = 1 -> r = repeat (hd 0%R r) 1.
Proof. destruct r as [|a [|b r]]; try discriminate. reflexivity. Qed.

(** A query of one entry is subtracted from every entry of every row. *)
Lemma np_subtract_scalar (vectors : ndarray2) (x : R) :
  well_shaped vectors ->
  np_subtract vectors [x]
  = Ok (Matrix (ncols vectors) (map (map (fun y => y - x)%R) (rows vectors))).
Proof.
  intros Hshape. unfold np_subtract. simpl length.
  destruct (Nat.eqb_spec (ncols vectors) 1) as [Hd|Hd]; [|reflexivity].
  do 2 f_equal. apply map_ext_in. intros r Hr.
  unfold well_shaped in Hshape. rewrite Forall_forall in Hshape.
  apply (subtract_repeat_r x r 1). rewrite <- Hd. now apply Hshape.
Qed.

(** X4.  A query of length 1 is no error: it stands for the constant
    vector.  The call returns what the call with the query repeated to the
    row length returns. *)
Theorem k_closest_vectors_scalar_query :
  forall (np_argsort : list R -> list nat)
         (target_vec : list R) (vectors : ndarray2) (k : Z),
    well_shaped vectors ->
    length target_vec = 1 ->
    k_closest_vectors np_argsort target_vec vectors k
    = k_closest_vectors np_argsort
        (repeat (hd 0%R target_vec) (ncols vectors)) vectors k.
Proof.
  intros np_argsort target_vec vectors k Hshape Hone.
  destruct target_vec as [|x [|y t]]; try discriminate. simpl hd.
  unfold k_closest_vectors, distances_of.
  rewrite (np_subtract_scalar vectors x Hshape).
  rewrite np_subtract_matching by apply repeat_length.
  assert (Hrows :
    map (fun r => map (fun p => fst p - snd p)%R
                      (combine r (repeat x (ncols vectors)))) (rows vectors)
    = map (map (fun y => y - x)%R) (rows vectors)).
  { apply map_ext_in. intros r Hr.
    unfold well_shaped in Hshape. rewrite Forall_forall in Hshape.
    apply subtract_repeat_r. now apply Hshape. }
  now rewrite Hrows.
Qed.

Lemma k_closest_vectors_scalar_query_witness :
  k_closest_vectors argsort_stable short_query sample_vectors 2
  = k_closest_vectors argsort_stable
      (repeat (hd 0%R short_query) (ncols sample_vectors)) sample_vectors 2.
Proof.
  apply (k_closest_vectors_scalar_query argsort_stable short_query sample_vectors 2).
  - repeat constructor.
  - reflexivity.
Defined.

(** X5.  A matrix of one column is no error either, whatever the length of
    the query: each row [[x]] is measured as the constant vector of the
    query's length, and the rows returned are rows of the one-column matrix. *)
Theorem k_closest_vectors_column_matrix :
  forall (np_argsort : list R -> list nat)
         (target_vec : list R) (vectors : ndarray2) (k : Z),
    argsort_contract np_argsort ->
    well_shaped vectors ->
    ncols vectors = 1 ->
    let distances :=
      map (fun r => euclidean (repeat (hd 0%R r) (length target_vec)) target_vec)
          (rows vectors) in
    distances_of target_vec vectors = Ok distances /\
    k_closest_vectors np_argsort target_vec vectors k
    = Ok (Matrix 1 (map (row vectors) (slice_upto (np_argsort distances) k))).
Proof.
  intros np_argsort target_vec vectors k Hsort Hshape Hcol distances.
  assert (Hds : distances_of target_vec vectors = Ok distances).
  { unfold distances_of, np_subtract, distances. rewrite Hcol.
    unfold well_shaped in Hshape. rewrite Forall_forall, Hcol in Hshape.
    destruct (Nat.eqb_spec 1 (length target_vec)) as [Hm|Hm].
    - simpl. unfold np_sqrt, np_sum_axis1, np_power. simpl.
      rewrite !map_map. f_equal. apply map_ext_in. intros r Hr.
      unfold euclidean. rewrite map_map.
      rewrite (singleton_row r (Hshape r Hr)) at 1. rewrite <- Hm. reflexivity.
    - destruct (Nat.eqb_spec (length target_vec) 1) as [Hm'|_]; [congruence|].
      simpl. unfold np_sqrt, np_sum_axis1, np_power. simpl.
      rewrite !map_map. f_equal. apply map_ext_in. intros r Hr.
      unfold euclidean. rewrite <- (map_map (fun p => fst p - snd p)%R (fun z => z ^ 2)%R).
      rewrite subtract_repeat_l. now rewrite !map_map. }
  split; [exact Hds|].
  rewrite (k_closest_vectors_unfold _ _ _ _ Hsort), Hds, Hcol. reflexivity.
Qed.

Lemma k_closest_vectors_column_matrix_witness :
  distances_of long_query column_vectors
  = Ok (map (fun r => euclidean (repeat (hd 0%R r) (length long_query)) long_query)
            (rows column_vectors)) /\
  k_closest_vectors argsort_stable long_query column_vectors 2
  = Ok (Matrix 1
          (map (row column_vectors)
               (slice_upto
                  (argsort_stable
                     (map (fun r => euclidean (repeat (hd 0%R r) (length long_query))
                                              long_query)
                          (rows column_vectors))) 2))).
Proof.
  apply (k_closest_vectors_column_matrix argsort_stable long_query column_vectors 2).
  - apply argsort_stable_contract.
  - repeat constructor.
  - reflexivity.
Defined.

(** ** The distances *)










(** ** Ties are the only freedom of the argsort *)

Lemma map_injective_on {A B : Type} (f : A -> B) (l1 l2 : list A) :
  (forall x y, In x l1 -> In y l2 -> f x = f y -> x = y) ->
  map f l1 = map f l2 -> l1 = l2.
Proof.
  revert l2. induction l1 as [|x l1 IH]; intros [|y l2] Hinj Hmap;
    try discriminate; [reflexivity|].
  simpl in Hmap. injection Hmap as Hxy Hrest. f_equal.
  - apply Hinj; simpl; auto.
  - apply IH; [|exact Hrest]. intros a b Ha Hb. apply Hinj; simpl; auto.
Qed.

(** On an array without repeated values, all argsorts agree. *)
Lemma argsort_unique (f g : list R -> list nat) (v : list R) :
  argsort_contract f -> argsort_contract g -> NoDup v -> f v = g v.
Proof.
  intros Hf Hg Hv.
  apply (map_injective_on (fun i => nth i v 0%R)).
  - intros i j Hi Hj Heq.
    pose proof (argsort_in_range _ Hf v) as Hfi.
    pose proof (argsort_in_range _ Hg v) as Hgj.
    rewrite Forall_forall in Hfi, Hgj.
    apply (proj1 (NoDup_nth v 0%R) Hv i j (Hfi i Hi) (Hgj j Hj) Heq).
  - apply Sorted_Rle_unique; [apply Hf | apply Hg |].
    rewrite (argsort_values _ Hf), (argsort_values _ Hg). reflexivity.
Qed.

Lemma argsort_reversed_ties_contract : argsort_contract argsort_reversed_ties.
Proof.
  intros v. unfold argsort_reversed_ties. split.
  - rewrite insert_all_permutation, app_nil_r. symmetry. apply Permutation_rev.
  - apply insert_all_sorted. constructor.
Qed.

(** X8.  The tie-break of [np.argsort] matters for ties only: when no two
    rows are at the same distance from the query, every argsort that meets
    the contract makes [k_closest_vectors] return the same rows, for every
    [k]. *)
Theorem k_closest_vectors_unique_without_ties :
  forall (argsort1 argsort2 : list R -> list nat)
         (target_vec : list R) (vectors : ndarray2) (k : Z) (ds : list R),
    argsort_contract argsort1 ->
    argsort_contract argsort2 ->
    distances_of target_vec vectors = Ok ds ->
    NoDup ds ->
    k_closest_vectors argsort1 target_vec vectors k
    = k_closest_vectors argsort2 target_vec vectors k.
Proof.
  intros argsort1 argsort2 target_vec vectors k ds H1 H2 Hds Hnodup.
  unfold k_closest_vectors. rewrite Hds. simpl.
  now rewrite (argsort_unique argsort1 argsort2 ds H1 H2 Hnodup).
Qed.

Lemma sample_distances :
  distances_of sample_query sample_vectors
  = Ok [sqrt ((3 - 0) ^ 2 + ((4 - 0) ^ 2 + 0));
        sqrt ((0 - 0) ^ 2 + ((1 - 0) ^ 2 + 0));
        sqrt ((1 - 0) ^ 2 + ((1 - 0) ^ 2 + 0))]%R.
Proof. reflexivity. Qed.

Lemma sample_distances_distinct :
  NoDup [sqrt ((3 - 0) ^ 2 + ((4 - 0) ^ 2 + 0));
         sqrt ((0 - 0) ^ 2 + ((1 - 0) ^ 2 + 0));
         sqrt ((1 - 0) ^ 2 + ((1 - 0) ^ 2 + 0))]%R.
Proof.
  repeat constructor; simpl; intuition;
    match goal with
    | H : sqrt _ = sqrt _ |- _ => apply sqrt_inj in H; lra
    end.
Qed.

Lemma k_closest_vectors_unique_without_ties_witness :
  k_closest_vectors argsort_stable sample_query sample_vectors 2
  = k_closest_vectors argsort_reversed_ties sample_query sample_vectors 2.
Proof.
  apply (k_closest_vectors_unique_without_ties
           argsort_stable argsort_reversed_ties sample_query sample_vectors 2 _
           argsort_stable_contract argsort_reversed_ties_contract
           sample_distances sample_distances_distinct).
Defined.

(** ** The call of cell 17 *)




(** ** The movies collection, searched and printed *)

(** Cell 39, row by row: the id is the index of the row, the vector the
    embedding of its overview, the payload its five columns. *)
Lemma records_of_rows (encode : string -> list R) (movies : Movies) :
  records encode movies
  = map (fun m => {| id := fst m;
                     vector := encode (overview (snd m));
                     payload := snd m |}) movies.
Proof.
  unfold records, movies_embeddings.
  induction movies as [|m movies IH]; [reflexivity|].
  simpl. f_equal. exact IH.
Qed.


Lemma upsert_incl (p : Record_) (stored : list Record_) :
  incl (upsert p stored) (p :: stored).
Proof.
  induction stored as [|q stored IH]; simpl.
  - apply incl_refl.
  - destruct (Z.eqb (id q) (id p)).
    + intros x [<-|Hx]; simpl; auto.
    + intros x [<-|Hx]; [simpl; auto|].
      destruct (IH x Hx) as [<-|Hin]; simpl; auto.
Qed.

Lemma upload_into_incl (sz : nat) (pts stored : list Record_) :
  incl (snd (upload_into sz pts stored)) (stored ++ pts).
Proof.
  revert stored. induction pts as [|p pts IH]; intros stored; simpl.
  - rewrite app_nil_r. apply incl_refl.
  - destruct (Nat.eqb (length (vector p)) sz); simpl.
    + intros x Hx. apply IH in Hx. apply in_app_or in Hx.
      apply in_or_app. destruct Hx as [Hx|Hx]; [|right; now right].
      apply upsert_incl in Hx. destruct Hx as [<-|Hx]; [right; now left | now left].
    + intros x Hx. apply in_or_app. now left.
Qed.


Lemma build_movies_collection_value (encoder_dimension : nat)
      (encode : string -> list R) (movies : Movies) :
  (forall text, length (encode text) = encoder_dimension) ->
  build_movies_collection encoder_dimension encode movies
  = (Ok tt,
     [(COLLECTION_NAME,
       {| config := {| size := encoder_dimension; distance := COSINE |};
          points := snd (upload_into encoder_dimension (records encode movies) []) |})]).
Proof.
  intros Hdim.
  pose proof (upload_into_accepts encoder_dimension (records encode movies) []
                (records_fit encoder_dimension encode movies Hdim)) as Hacc.
  unfold build_movies_collection, seq_op, recreate_collection, upload_points.
  simpl.
  destruct (upload_into encoder_dimension (records encode movies) []) as [r stored].
  simpl in Hacc. now subst r.
Qed.



(** X11.  With a ranking that returns stored points, cells 35 to 45 raise
    nothing and print at most 10 blocks, and every block printed is the
    title, release date and runtime of a row of the movies table; on an
    empty table nothing is printed. *)
Theorem movies_search_prints_rows_of_the_table :
  forall (encoder_dimension : nat) (encode : string -> list R)
         (rank : Distance -> list R -> list Record_ -> list Record_)
         (movies : Movies) (prompt : string),
    (forall text, length (encode text) = encoder_dimension) ->
    rank_returns_stored rank ->
    exists printed,
      movies_search_output encoder_dimension encode rank movies prompt = Ok printed /\
      length printed <= 10 /\
      (forall block, In block printed ->
                     exists m, In m movies /\ block = format_hit (snd m)) /\
      (movies = [] -> printed = []).
Proof.
  intros encoder_dimension encode rank movies prompt Hdim Hrank.
  unfold movies_search_output.
  rewrite (build_movies_collection_value encoder_dimension encode movies Hdim).
  unfold search_movies, search. cbn [get_collection].
  replace (String.eqb COLLECTION_NAME COLLECTION_NAME) with true
    by (symmetry; apply String.eqb_refl).
  cbn [config size distance points]. rewrite Hdim, Nat.eqb_refl.
  set (stored := snd (upload_into encoder_dimension (records encode movies) [])).
  set (hits := firstn (Z.to_nat 10) (rank COSINE (encode prompt) stored)).
  assert (Hhits : incl hits (records encode movies)).
  { intros h Hh. apply firstn_incl, Hrank in Hh.
    now apply (upload_into_incl encoder_dimension (records encode movies) []) in Hh. }
  exists (print_hits hits). split; [reflexivity|]. split; [|split].
  - unfold print_hits, hits. rewrite length_map, length_firstn.
    change (Z.to_nat 10) with 10. lia.
  - intros block Hblock. unfold print_hits in Hblock.
    apply in_map_iff in Hblock. destruct Hblock as (h & <- & Hh).
    apply Hhits in Hh. rewrite records_of_rows in Hh.
    apply in_map_iff in Hh. destruct Hh as (m & <- & Hm).
    now exists m.
  - intros ->. destruct hits as [|h hits']; [reflexivity|].
    exfalso. apply (Hhits h). now left.
Qed.

Lemma sample_rank_returns_stored : rank_returns_stored sample_rank.
Proof. intros d q pts. apply incl_refl. Qed.

Lemma movies_search_prints_rows_of_the_table_witness :
  exists printed,
    movies_search_output 2 sample_encode sample_rank sample_movies
                         "Crazy Scientist save the planet from aliens"
    = Ok printed /\
    length printed <= 10 /\
    (forall block, In block printed ->
                   exists m, In m sample_movies /\ block = format_hit (snd m)) /\
    (sample_movies = [] -> printed = []).
Proof.
  apply (movies_search_prints_rows_of_the_table
           2 sample_encode sample_rank sample_movies
           "Crazy Scientist save the planet from aliens").
  - intros text. reflexivity.
  - exact sample_rank_returns_stored.
Defined.
